(** * Accounts and transactions of the blockchain database package

    A shallow embedding of [foundation/blockchain/database]: the account
    identifier codec ([ToAccountID], [PublicKeyToAccountID], [IsAccountID]
    and its helpers) and the transaction model ([NewTx], [Tx.Sign],
    [SignedTx.Validate]).

    Go strings are byte sequences: they are modelled by [string], whose
    characters are the 8-bit [ascii].  Indexing and slicing a Go string
    panic out of range; the embedding keeps that visible in the [go]
    monad below, so that "returns without failing" is a theorem and not
    an artefact of the encoding. *)

From Stdlib Require Import Bool Arith NArith ZArith List Ascii String Lia.
From Stdlib Require Import DecimalString DecimalN DecimalPos.
Import ListNotations.

Local Open Scope string_scope.
Local Open Scope bool_scope.

(** ** Go evaluation: a result or a run-time panic *)

Inductive panic : Type :=
| IndexOutOfRange (index len : nat)
| SliceBoundsOutOfRange (low len : nat).

Inductive go (A : Type) : Type :=
| Done (a : A)
| Panics (p : panic).

Arguments Done {A} a.
Arguments Panics {A} p.

Definition bind {A B : Type} (m : go A) (k : A -> go B) : go B :=
  match m with
  | Done a => k a
  | Panics p => Panics p
  end.

Declare Scope go_scope.
Delimit Scope go_scope with go.
Notation "x <- m ;; k" := (bind m (fun x => k))
  (at level 61, m at next level, right associativity) : go_scope.

(** Go's [&&] and [||] evaluate their right operand only when the left one
    does not decide the result. *)
Definition and_then (l r : go bool) : go bool :=
  bind l (fun b => if b then r else Done false).

Definition or_else (l r : go bool) : go bool :=
  bind l (fun b => if b then Done true else r).

Notation "l &&& r" := (and_then l r) (at level 40, left associativity) : go_scope.
Notation "l ||| r" := (or_else l r) (at level 50, left associativity) : go_scope.

Local Open Scope go_scope.

(** [len(s)]: the number of bytes. *)
Definition len (s : string) : nat := String.length s.

(** [s[i]]: the byte at [i], a panic when [i >= len(s)]. *)
Definition byte_at (s : string) (i : nat) : go ascii :=
  match String.get i s with
  | Some c => Done c
  | None => Panics (IndexOutOfRange i (len s))
  end.

(** [s[low:]]: the suffix from [low], a panic when [low > len(s)]. *)
Definition slice_from (s : string) (low : nat) : go string :=
  if (low <=? len s)%nat
  then Done (String.substring low (len s - low) s)
  else Panics (SliceBoundsOutOfRange low (len s)).

(** [[]byte(s)] *)
Definition bytes_of (s : string) : list ascii := list_ascii_of_string s.

(** ** Errors

    [errors.New] and [fmt.Errorf] build an error out of its message; an
    error is modelled by the text its [Error()] method returns. *)

Inductive error : Type :=
| mkError (msg : string).

Definition Error (e : error) : string :=
  match e with mkError msg => msg end.

Definition errors_New (text : string) : error := mkError text.

(** The [%d] verb on an unsigned integer. *)
Definition fmt_d (n : N) : string := NilZero.string_of_uint (N.to_uint n).

(** ** account.go *)

Definition AccountID : Type := string.

Definition addressLength : nat := 20.

(** isHexCharacter returns bool of c being a valid hexadecimal. *)
Definition isHexCharacter (c : ascii) : bool :=
  (Ascii.leb "0" c && Ascii.leb c "9")
  || (Ascii.leb "a" c && Ascii.leb c "f")
  || (Ascii.leb "A" c && Ascii.leb c "F").

(** The [for _, c := range []byte(a)] loop of isHex: leave with [false] at
    the first byte that is not a hex character, [true] when the bytes run
    out. *)
Fixpoint isHex_range (bs : list ascii) : bool :=
  match bs with
  | [] => true
  | c :: rest => if negb (isHexCharacter c) then false else isHex_range rest
  end.

(** isHex validates whether each byte is valid hexadecimal string. *)
Definition isHex (a : AccountID) : bool :=
  if negb (len a mod 2 =? 0)%nat then false
  else isHex_range (bytes_of a).

(** has0xPrefix validates the account starts with a 0x. *)
Definition has0xPrefix (a : AccountID) : go bool :=
  Done (2 <=? len a)%nat
  &&& (c <- byte_at a 0 ;; Done (Ascii.eqb c "0"))
  &&& ((c <- byte_at a 1 ;; Done (Ascii.eqb c "x"))
       ||| (c <- byte_at a 1 ;; Done (Ascii.eqb c "X"))).

(** IsAccountID verifies whether the underlying data represents a valid
    hex-encoded account. *)
Definition IsAccountID (a : AccountID) : go bool :=
  p <- has0xPrefix a ;;
  a <- (if p then slice_from a 2 else Done a) ;;
  Done ((len a =? 2 * addressLength)%nat && isHex a).

Definition ErrInvalidAccountFormat : error :=
  errors_New "invalid account format".

(** ToAccountID converts a hex-encoded string to an account and validates
    the hex-encoded string is formatted correctly. *)
Definition ToAccountID (hex : string) : go (AccountID * option error) :=
  let a : AccountID := hex in
  ok <- IsAccountID a ;;
  if negb ok then Done ("", Some ErrInvalidAccountFormat)
  else Done (a, None).

(** ** tx.go *)

(** A [*big.Int]: [None] is the nil pointer. *)
Definition bigInt : Type := option Z.

(** Tx is the transactional information between two parties.  [ChainID]
    is a [uint16], [Nonce], [Value] and [Tip] are [uint64]; [Data] is a
    byte slice, [None] being the nil slice. *)
Record Tx : Type := mkTx {
  ChainID : N;
  Nonce : N;
  FromID : AccountID;
  ToID : AccountID;
  Value : N;
  Tip : N;
  Data : option (list ascii)
}.

(** [Tx{}] *)
Definition Tx_zero : Tx := mkTx 0 0 "" "" 0 0 None.

(** SignedTx is a signed version of the transaction: the embedded [Tx]
    and the signature.  The field [S] of the source is [S'] here, [S]
    being the successor of [nat]. *)
Record SignedTx : Type := mkSignedTx {
  Tx_ : Tx;
  V : bigInt;
  R : bigInt;
  S' : bigInt
}.

(** [SignedTx{}] *)
Definition SignedTx_zero : SignedTx := mkSignedTx Tx_zero None None None.

(** The functions of the [signature] package that tx.go calls.  The
    package is outside of this development; its functions are taken as
    they are declared, as functions that return. *)
Class Signature : Type := {
  PrivateKey : Type;
  (* func Sign(value any, privateKey *ecdsa.PrivateKey) (v, r, s *big.Int, err error) *)
  signature_Sign : Tx -> PrivateKey -> bigInt * bigInt * bigInt * option error;
  (* func VerifySignature(v, r, s *big.Int) error *)
  signature_VerifySignature : bigInt -> bigInt -> bigInt -> option error;
  (* func FromAddress(value any, v, r, s *big.Int) (string, error) *)
  signature_FromAddress : Tx -> bigInt -> bigInt -> bigInt -> string * option error
}.

Definition ErrFromFormat : error :=
  errors_New "from account is not properly formatted".

Definition ErrToFormat : error :=
  errors_New "to account is not properly formatted".

(** [fmt.Errorf("invalid chain id, got[%d] exp[%d]", got, exp)] *)
Definition ErrChainID (got exp : N) : error :=
  mkError ("invalid chain id, got[" ++ fmt_d got ++ "] exp[" ++ fmt_d exp ++ "]").

(** [fmt.Errorf("transaction invalid, sending money to yourself, from %s, to %s", from, to)] *)
Definition ErrSelfTransfer (from to : AccountID) : error :=
  mkError ("transaction invalid, sending money to yourself, from " ++ from
           ++ ", to " ++ to).

Definition ErrSignatureMismatch : error :=
  errors_New "signature address doesn't match from address".

(** NewTx constructs a new transaction. *)
Definition NewTx (chainID nonce : N) (fromID toID : AccountID)
    (value tip : N) (data : option (list ascii)) : go (Tx * option error) :=
  okFrom <- IsAccountID fromID ;;
  if negb okFrom then Done (Tx_zero, Some ErrFromFormat)
  else
    okTo <- IsAccountID toID ;;
    if negb okTo then Done (Tx_zero, Some ErrToFormat)
    else
      let tx := {| ChainID := chainID; Nonce := nonce; FromID := fromID;
                   ToID := toID; Value := value; Tip := tip; Data := data |} in
      Done (tx, None).

Section Transactions.

Context `{Signature}.

(** Sign uses the specified private key to sign the transaction. *)
Definition Sign (tx : Tx) (privateKey : PrivateKey) : SignedTx * option error :=
  let '(v, r, s, err) := signature_Sign tx privateKey in
  match err with
  | Some e => (SignedTx_zero, Some e)
  | None =>
      let signedTx := {| Tx_ := tx; V := v; R := r; S' := s |} in
      (signedTx, None)
  end.

(** Validate verifies the transaction has a proper signature that conforms
    to our standards. It also checks the from field matches the account
    that signed the transaction. Last it checks the format of the from and
    to fields. *)
Definition Validate (tx : SignedTx) (chainID : N) : go (option error) :=
  if negb (ChainID (Tx_ tx) =? chainID)%N
  then Done (Some (ErrChainID (ChainID (Tx_ tx)) chainID))
  else
    okFrom <- IsAccountID (FromID (Tx_ tx)) ;;
    if negb okFrom then Done (Some ErrFromFormat)
    else
      okTo <- IsAccountID (ToID (Tx_ tx)) ;;
      if negb okTo then Done (Some ErrToFormat)
      else
        if String.eqb (FromID (Tx_ tx)) (ToID (Tx_ tx))
        then Done (Some (ErrSelfTransfer (FromID (Tx_ tx)) (ToID (Tx_ tx))))
        else
          match signature_VerifySignature (V tx) (R tx) (S' tx) with
          | Some err => Done (Some err)
          | None =>
              let '(address, err) :=
                signature_FromAddress (Tx_ tx) (V tx) (R tx) (S' tx) in
              match err with
              | Some err => Done (Some err)
              | None =>
                  if negb (String.eqb address (FromID (Tx_ tx)))
                  then Done (Some ErrSignatureMismatch)
                  else Done None
              end
          end.

End Transactions.

(** String implements the Stringer interface for logging:
    [fmt.Sprintf("%s:%d", tx.FromID, tx.Nonce)]. *)
Definition SignedTx_String (tx : SignedTx) : string :=
  FromID (Tx_ tx) ++ ":" ++ fmt_d (Nonce (Tx_ tx)).

(** ** The words of the specification

    The definitions of this part follow the specification's text, not
    the code; the theorems below compare the two. *)

(** A hexadecimal digit, in either letter case. *)
Definition HexDigit (c : ascii) : Prop :=
  In c (list_ascii_of_string "0123456789abcdefABCDEF").

(** Exactly 40 hexadecimal digits. *)
Definition Hex40 (body : string) : Prop :=
  String.length body = 40 /\ Forall HexDigit (list_ascii_of_string body).

(** The pattern [0x] followed by exactly 40 hexadecimal digits. *)
Definition Matches0x40Hex (s : string) : Prop :=
  exists body, s = "0x" ++ body /\ Hex40 body.

(** The AccountID invariant of the data model: empty, or 42 characters,
    [0x] and 40 hexadecimal digits. *)
Definition AccountInvariant (a : AccountID) : Prop :=
  a = "" \/ (String.length a = 42 /\ Matches0x40Hex a).

(** 40 hexadecimal digits after an optional prefix, [0x] or [0X]. *)
Definition OptionalPrefixHex40 (s : string) : Prop :=
  exists p body, In p [""; "0x"; "0X"] /\ s = p ++ body /\ Hex40 body.

(** Rendering of bytes in lower-case hexadecimal, with the [0x] prefix. *)
Definition nibble_char (n : nat) : ascii :=
  match String.get n "0123456789abcdef" with
  | Some c => c
  | None => "0"%char
  end.

Definition hex_of_byte (b : ascii) : string :=
  let n := nat_of_ascii b in
  String (nibble_char (n / 16)) (String (nibble_char (n mod 16)) "").

Fixpoint hex_encode (bs : list ascii) : string :=
  match bs with
  | [] => ""
  | b :: rest => hex_of_byte b ++ hex_encode rest
  end.

Definition render (bs : list ascii) : string := "0x" ++ hex_encode bs.

(** *** The address of a public key

    [crypto.PubkeyToAddress] and [common.Address.String] belong to
    go-ethereum, not to this repository.  What is left open here is the
    hash of a public key and the letter case of the rendering, which the
    specification calls case-insensitive. *)
Class Crypto : Type := {
  PublicKey : Type;
  (* the fixed-width hash of a public key *)
  crypto_Keccak256 : PublicKey -> list ascii;
  (* whether an address writes the hexadecimal digit at an index, when a
     letter, in upper case *)
  Address_upper : list ascii -> nat -> bool
}.

(** Modelled from the spec: go-ethereum's [common.Address], "a 20-byte
    value". *)
Definition Address : Type := list ascii.

(** Modelled from the spec: go-ethereum's [common.BytesToAddress], the
    "last 20 bytes" of the bytes given.  Fewer than 20 bytes, which a
    fixed-width hash does not give, are filled up with zero bytes in
    front. *)
Definition BytesToAddress (b : list ascii) : Address :=
  let last := skipn (List.length b - addressLength) b in
  (repeat zero (addressLength - List.length last) ++ last)%list.

(** Modelled from the spec: go-ethereum's [crypto.PubkeyToAddress], the
    "one-way address-derivation function (public key -> fixed-width hash
    -> last 20 bytes)". *)
Definition crypto_PubkeyToAddress `{Crypto} (pk : PublicKey) : Address :=
  BytesToAddress (crypto_Keccak256 pk).

(** Modelled from the spec: the letter case of the rendering, which is
    "case-insensitive".  A lower-case hexadecimal letter in upper case; a
    digit as it is. *)
Definition upper_hex (c : ascii) : ascii :=
  if Ascii.ltb "9" c then ascii_of_nat (nat_of_ascii c - 32) else c.

(** Modelled from the spec: the digits of a rendering, each letter in
    the case [upper] gives for its index. *)
Fixpoint with_case (upper : nat -> bool) (i : nat) (s : string) : string :=
  match s with
  | "" => ""
  | String c rest =>
      String (if upper i then upper_hex c else c) (with_case upper (S i) rest)
  end.

(** Modelled from the spec: go-ethereum's [common.Address.String], the
    20 bytes "rendered as a [0x]-prefixed 40-hex-character string
    (case-insensitive)". *)
Definition Address_String `{Crypto} (a : Address) : string :=
  "0x" ++ with_case (Address_upper a) 0 (hex_encode a).

(** PublicKeyToAccountID converts the public key to an account value. *)
Definition PublicKeyToAccountID `{Crypto} (pk : PublicKey) : AccountID :=
  Address_String (crypto_PubkeyToAddress pk).

(** The lower-case hexadecimal digits, which [hex_encode] writes. *)
Definition is_lower_hex (c : ascii) : bool :=
  existsb (Ascii.eqb c) (list_ascii_of_string "0123456789abcdef").

(** The bytes an identifier denotes: the value of its hexadecimal digits,
    letter case and prefix put aside. *)
Definition hex_value (c : ascii) : option nat :=
  let n := nat_of_ascii c in
  if (Ascii.leb "0" c && Ascii.leb c "9") then Some (n - 48)
  else if (Ascii.leb "a" c && Ascii.leb c "f") then Some (n - 87)
  else if (Ascii.leb "A" c && Ascii.leb c "F") then Some (n - 55)
  else None.

Fixpoint decode_hex (s : string) : option (list ascii) :=
  match s with
  | "" => Some []
  | String h (String l rest) =>
      match hex_value h, hex_value l, decode_hex rest with
      | Some a, Some b, Some bs => Some (ascii_of_nat (16 * a + b) :: bs)
      | _, _, _ => None
      end
  | String _ "" => None
  end.

Definition starts_0x (a : string) : bool :=
  match a with
  | String c0 (String c1 _) =>
      Ascii.eqb c0 "0" && (Ascii.eqb c1 "x" || Ascii.eqb c1 "X")
  | _ => false
  end.

Definition strip_0x (a : string) : string :=
  if starts_0x a then String.substring 2 (String.length a - 2) a else a.

Definition address_bytes (a : AccountID) : option (list ascii) :=
  decode_hex (strip_0x a).

Definition SameAddress (a b : AccountID) : Prop :=
  exists bs, address_bytes a = Some bs /\ address_bytes b = Some bs.

(** The checks of validation, in the order the specification lists them. *)
Inductive check : Type :=
| ChainIDCheck
| FromFormatCheck
| ToFormatCheck
| SelfTransferCheck
| SignatureFormCheck
| SignerCheck.

Definition check_rank (k : check) : nat :=
  match k with
  | ChainIDCheck => 1
  | FromFormatCheck => 2
  | ToFormatCheck => 3
  | SelfTransferCheck => 4
  | SignatureFormCheck => 5
  | SignerCheck => 6
  end.

Definition all_checks : list check :=
  [ChainIDCheck; FromFormatCheck; ToFormatCheck; SelfTransferCheck;
   SignatureFormCheck; SignerCheck].

(** What one check, taken on its own, finds in a signed transaction: the
    error it reports, or [None] when it passes. *)
Definition check_finding `{Signature} (tx : SignedTx) (expected : N) (k : check)
  : option error :=
  match k with
  | ChainIDCheck =>
      if (ChainID (Tx_ tx) =? expected)%N then None
      else Some (ErrChainID (ChainID (Tx_ tx)) expected)
  | FromFormatCheck =>
      match IsAccountID (FromID (Tx_ tx)) with
      | Done true => None
      | _ => Some ErrFromFormat
      end
  | ToFormatCheck =>
      match IsAccountID (ToID (Tx_ tx)) with
      | Done true => None
      | _ => Some ErrToFormat
      end
  | SelfTransferCheck =>
      if String.eqb (FromID (Tx_ tx)) (ToID (Tx_ tx))
      then Some (ErrSelfTransfer (FromID (Tx_ tx)) (ToID (Tx_ tx)))
      else None
  | SignatureFormCheck => signature_VerifySignature (V tx) (R tx) (S' tx)
  | SignerCheck =>
      match signature_FromAddress (Tx_ tx) (V tx) (R tx) (S' tx) with
      | (_, Some e) => Some e
      | (recovered, None) =>
          if String.eqb recovered (FromID (Tx_ tx)) then None
          else Some ErrSignatureMismatch
      end
  end.

(** The first finding of a sequence of checks run in order. *)
Fixpoint first_finding (findings : list (option error)) : option error :=
  match findings with
  | [] => None
  | Some e :: _ => Some e
  | None :: rest => first_finding rest
  end.

(** ** Sample data *)

Definition alice : AccountID := "0x52908400098527886e0f7030069857d2e4169ee7".
Definition alice_upper : AccountID := "0x52908400098527886E0F7030069857D2E4169EE7".
Definition alice_bare : AccountID := "52908400098527886e0f7030069857d2e4169ee7".
Definition alice_0X : AccountID := "0X52908400098527886e0f7030069857d2e4169ee7".
Definition bob : AccountID := "0xde709f2102306220921060314715629080e2fb77".

(** A stand-in for the signature package, to run the transaction code on
    sample data: key 0 cannot sign; a signature is well formed when none
    of its parts is nil and [v] is 29 or 30; the signer recovered is
    [alice] for [r = 1], her identifier in upper case for [r = 2], and
    nobody otherwise. *)
Definition sample_Sign (tx : Tx) (key : N)
  : bigInt * bigInt * bigInt * option error :=
  if (key =? 0)%N then (None, None, None, Some (errors_New "invalid private key"))
  else (Some 29%Z, Some (Z.of_N key), Some 7%Z, None).

Definition sample_VerifySignature (v r s : bigInt) : option error :=
  match v, r, s with
  | Some v, Some _, Some _ =>
      if (v =? 29)%Z || (v =? 30)%Z then None
      else Some (errors_New "invalid recovery id")
  | _, _, _ => Some (errors_New "missing signature component")
  end.

Definition sample_FromAddress (tx : Tx) (v r s : bigInt) : string * option error :=
  match r with
  | Some 1%Z => (alice, None)
  | Some 2%Z => (alice_upper, None)
  | _ => ("", Some (errors_New "recovery failed"))
  end.

Definition sample_signature : Signature :=
  {| PrivateKey := N;
     signature_Sign := sample_Sign;
     signature_VerifySignature := sample_VerifySignature;
     signature_FromAddress := sample_FromAddress |}.

(** A stand-in for the address derivation: the hash of a public key is
    the key itself, and an address writes the hexadecimal letters at even
    indices in upper case. *)
Definition sample_crypto : Crypto :=
  {| PublicKey := list ascii;
     crypto_Keccak256 := fun pk => pk;
     Address_upper := fun _ i => Nat.even i |}.

Definition alice_to_bob : Tx := mkTx 1 0 alice bob 100 1 None.
Definition alice_to_alice : Tx := mkTx 1 0 alice alice 100 1 None.

(** The transaction with a well-formed signature whose [r] is given. *)
Definition signed_by (tx : Tx) (r : Z) : SignedTx :=
  mkSignedTx tx (Some 29%Z) (Some r) (Some 7%Z).

(** ** Strings and hexadecimal digits *)

Lemma substring_whole (s : string) :
  String.substring 0 (String.length s) s = s.
Proof.
  induction s as [|c s IH]; simpl; [reflexivity | now rewrite IH].
Qed.

Lemma byte_at_out_of_range (s : string) (i : nat) :
  len s <= i -> byte_at s i = Panics (IndexOutOfRange i (len s)).
Proof.
  unfold byte_at, len. revert i.
  induction s as [|c s IH]; intros i Hi; simpl in *.
  - now destruct i.
  - destruct i as [|i]; [lia|].
    specialize (IH i ltac:(lia)).
    destruct (String.get i s); [discriminate | reflexivity].
Qed.

Lemma slice_from_out_of_range (s : string) (low : nat) :
  len s < low -> slice_from s low = Panics (SliceBoundsOutOfRange low (len s)).
Proof.
  intros Hlow. unfold slice_from.
  destruct (Nat.leb_spec low (len s)); [lia | reflexivity].
Qed.

Lemma isHexCharacter_digits (c : ascii) :
  isHexCharacter c
  = existsb (Ascii.eqb c) (list_ascii_of_string "0123456789abcdefABCDEF").
Proof.
  destruct c as [[] [] [] [] [] [] [] []]; reflexivity.
Qed.

Lemma isHexCharacter_HexDigit (c : ascii) :
  isHexCharacter c = true <-> HexDigit c.
Proof.
  rewrite isHexCharacter_digits, existsb_exists. unfold HexDigit. split.
  - intros [d [Hin Heq]]. apply Ascii.eqb_eq in Heq. now subst.
  - intros Hin. exists c. split; [assumption | apply Ascii.eqb_refl].
Qed.

Lemma isHex_range_Forall (bs : list ascii) :
  isHex_range bs = true <-> Forall HexDigit bs.
Proof.
  induction bs as [|c bs IH]; simpl.
  - split; [constructor | reflexivity].
  - destruct (isHexCharacter c) eqn:Hc; simpl.
    + rewrite IH. split.
      * intros Hbs. constructor; [now apply isHexCharacter_HexDigit | assumption].
      * intros Hall. now inversion Hall.
    + split; [discriminate|].
      intros Hall. inversion Hall as [|? ? Hd _]; subst.
      apply isHexCharacter_HexDigit in Hd. congruence.
Qed.

Lemma HexDigit_not_x (c : ascii) :
  HexDigit c -> Ascii.eqb c "x" || Ascii.eqb c "X" = false.
Proof.
  intros Hc. apply isHexCharacter_HexDigit in Hc. revert Hc.
  destruct c as [[] [] [] [] [] [] [] []]; vm_compute; congruence.
Qed.

(** ** The format check runs to completion *)

Lemma has0xPrefix_eval (a : AccountID) : has0xPrefix a = Done (starts_0x a).
Proof.
  destruct a as [|c0 [|c1 rest]]; try reflexivity.
  unfold has0xPrefix, starts_0x; cbn.
  destruct (Ascii.eqb c0 "0"); cbn; [|reflexivity].
  destruct (Ascii.eqb c1 "x"); reflexivity.
Qed.

Lemma starts_0x_length (a : AccountID) : starts_0x a = true -> 2 <= len a.
Proof.
  destruct a as [|c0 [|c1 rest]]; simpl; try discriminate. intros _. lia.
Qed.

Lemma IsAccountID_eval (a : AccountID) :
  IsAccountID a
  = Done ((len (strip_0x a) =? 2 * addressLength)%nat && isHex (strip_0x a)).
Proof.
  unfold IsAccountID. rewrite has0xPrefix_eval. unfold strip_0x. cbn [bind].
  destruct (starts_0x a) eqn:Hp; [|reflexivity].
  unfold slice_from.
  apply starts_0x_length in Hp.
  destruct (Nat.leb_spec 2 (len a)); [reflexivity | lia].
Qed.

Lemma strip_0x_prefixed (c0 c1 : ascii) (rest : string) :
  starts_0x (String c0 (String c1 rest)) = true ->
  strip_0x (String c0 (String c1 rest)) = rest.
Proof.
  intros Hp. unfold strip_0x. rewrite Hp. simpl.
  rewrite Nat.sub_0_r. apply substring_whole.
Qed.

Lemma Hex40_isHex (body : string) :
  Hex40 body <-> (len body =? 2 * addressLength)%nat && isHex body = true.
Proof.
  unfold Hex40, isHex, len, bytes_of, addressLength. split.
  - intros [Hlen Hall]. rewrite Hlen. simpl.
    now apply isHex_range_Forall.
  - intros Hb. apply andb_true_iff in Hb as [Hlen Hhex].
    apply Nat.eqb_eq in Hlen. simpl in Hlen. rewrite Hlen in Hhex. simpl in Hhex.
    split; [assumption | now apply isHex_range_Forall].
Qed.

Lemma Hex40_not_prefixed (body : string) : Hex40 body -> starts_0x body = false.
Proof.
  intros [Hlen Hall].
  destruct body as [|c0 [|c1 rest]]; try reflexivity.
  simpl in Hall. inversion Hall as [|? ? _ Hall']; subst.
  inversion Hall' as [|? ? Hc1 _]; subst.
  unfold starts_0x. rewrite (HexDigit_not_x _ Hc1). apply andb_false_r.
Qed.

Lemma IsAccountID_accepts (a : AccountID) :
  IsAccountID a = Done true <-> OptionalPrefixHex40 a.
Proof.
  rewrite IsAccountID_eval. split.
  - intros Heq. injection Heq as Heq. apply Hex40_isHex in Heq.
    destruct (starts_0x a) eqn:Hp.
    + destruct a as [|c0 [|c1 rest]]; try discriminate.
      rewrite (strip_0x_prefixed _ _ _ Hp) in Heq.
      simpl in Hp. apply andb_true_iff in Hp as [H0 H1].
      apply Ascii.eqb_eq in H0. subst c0.
      apply orb_true_iff in H1 as [H1|H1]; apply Ascii.eqb_eq in H1; subst c1.
      * exists "0x", rest. simpl. auto.
      * exists "0X", rest. simpl. auto.
    + unfold strip_0x in Heq. rewrite Hp in Heq.
      exists "", a. simpl. auto.
  - intros (p & body & Hp & -> & Hbody). f_equal.
    destruct Hp as [<-|[<-|[<-|[]]]]; simpl append.
    + unfold strip_0x. rewrite (Hex40_not_prefixed _ Hbody).
      now apply Hex40_isHex.
    + rewrite strip_0x_prefixed by reflexivity. now apply Hex40_isHex.
    + rewrite strip_0x_prefixed by reflexivity. now apply Hex40_isHex.
Qed.

Lemma IsAccountID_returns (a : AccountID) : exists b, IsAccountID a = Done b.
Proof. rewrite IsAccountID_eval. eauto. Qed.

Lemma IsAccountID_rejects (a : AccountID) :
  IsAccountID a = Done false <-> ~ OptionalPrefixHex40 a.
Proof.
  rewrite <- IsAccountID_accepts.
  destruct (IsAccountID_returns a) as [[] ->]; split; congruence.
Qed.

Lemma Matches0x40Hex_optional (s : string) :
  Matches0x40Hex s -> OptionalPrefixHex40 s.
Proof.
  intros (body & -> & Hbody). exists "0x", body. simpl. auto.
Qed.

Lemma OptionalPrefixHex40_length (s : string) :
  OptionalPrefixHex40 s -> len s = 40 \/ len s = 42.
Proof.
  intros (p & body & Hp & -> & Hlen & _). unfold len.
  destruct Hp as [<-|[<-|[<-|[]]]]; simpl; rewrite Hlen; auto.
Qed.

Lemma hex_of_byte_digits (b : ascii) :
  Forall HexDigit (list_ascii_of_string (hex_of_byte b)).
Proof.
  apply isHex_range_Forall.
  destruct b as [[] [] [] [] [] [] [] []]; reflexivity.
Qed.

Lemma hex_encode_length (bs : list ascii) :
  String.length (hex_encode bs) = 2 * List.length bs.
Proof.
  induction bs as [|b bs IH]; [reflexivity|].
  change (hex_encode (b :: bs)) with (hex_of_byte b ++ hex_encode bs).
  unfold hex_of_byte. cbn [append String.length]. rewrite IH.
  cbn [List.length]. lia.
Qed.

Lemma hex_encode_digits (bs : list ascii) :
  Forall HexDigit (list_ascii_of_string (hex_encode bs)).
Proof.
  induction bs as [|b bs IH]; [constructor|].
  pose proof (hex_of_byte_digits b) as Hb.
  change (hex_encode (b :: bs)) with (hex_of_byte b ++ hex_encode bs).
  unfold hex_of_byte in *. cbn [append list_ascii_of_string] in *.
  inversion Hb as [|? ? H1 Hb']; subst.
  inversion Hb' as [|? ? H2 _]; subst.
  constructor; [exact H1|]. constructor; [exact H2 | exact IH].
Qed.

Lemma render_matches (bs : list ascii) :
  List.length bs = addressLength -> Matches0x40Hex (render bs).
Proof.
  intros Hlen. exists (hex_encode bs). split; [reflexivity|]. split.
  - rewrite hex_encode_length, Hlen. reflexivity.
  - apply hex_encode_digits.
Qed.

Lemma decode_hex_encode (bs : list ascii) :
  decode_hex (hex_encode bs) = Some bs.
Proof.
  induction bs as [|b bs IH]; [reflexivity|].
  change (hex_encode (b :: bs)) with (hex_of_byte b ++ hex_encode bs).
  unfold hex_of_byte. cbn [append decode_hex]. rewrite IH.
  destruct b as [[] [] [] [] [] [] [] []]; reflexivity.
Qed.

(** ** The identifier codec *)

Lemma ToAccountID_accepted (s : string) :
  OptionalPrefixHex40 s -> ToAccountID s = Done (s, None).
Proof.
  intros Hs. apply IsAccountID_accepts in Hs.
  unfold ToAccountID. now rewrite Hs.
Qed.

Lemma ToAccountID_rejected (s : string) :
  ~ OptionalPrefixHex40 s ->
  ToAccountID s = Done ("", Some ErrInvalidAccountFormat).
Proof.
  intros Hs. apply IsAccountID_rejects in Hs.
  unfold ToAccountID. now rewrite Hs.
Qed.

Lemma ToAccountID_returns (s : string) :
  ToAccountID s = Done (s, None) \/
  ToAccountID s = Done ("", Some ErrInvalidAccountFormat).
Proof.
  unfold ToAccountID.
  destruct (IsAccountID_returns s) as [[] ->]; simpl; auto.
Qed.

Example ToAccountID_too_short :
  ToAccountID "0x1234" = Done ("", Some ErrInvalidAccountFormat).
Proof. reflexivity. Qed.

Example ToAccountID_not_hex :
  ToAccountID "not-hex-at-all" = Done ("", Some ErrInvalidAccountFormat).
Proof. reflexivity. Qed.

Example ToAccountID_upper_prefix :
  ToAccountID alice_0X = Done (alice_0X, None).
Proof. reflexivity. Qed.

Example ToAccountID_odd_length :
  ToAccountID "0x529" = Done ("", Some ErrInvalidAccountFormat).
Proof. reflexivity. Qed.

(** Claim C9.  IsAccountID is total: on every string, of any length, the
    prefix check and the format check return a boolean and never panic,
    although indexing and slicing a string out of range do panic.  The
    prefix check answers [false] on a string shorter than two bytes, the
    bytes 0 and 1 it reads exist whenever it reads them, and so does the
    suffix from 2 that the format check takes after a prefix. *)
Theorem IsAccountID_total (a : AccountID) :
  (exists b, IsAccountID a = Done b)
  /\ (exists p, has0xPrefix a = Done p
        /\ (len a < 2 -> p = false)
        /\ (p = true -> exists c0 c1 rest,
              byte_at a 0 = Done c0 /\ byte_at a 1 = Done c1
              /\ slice_from a 2 = Done rest)).
Proof.
  split; [apply IsAccountID_returns|].
  exists (starts_0x a). split; [apply has0xPrefix_eval|]. split.
  - intros Hlen. destruct (starts_0x a) eqn:Hp; [|reflexivity].
    apply starts_0x_length in Hp. lia.
  - intros Hp. destruct a as [|c0 [|c1 rest]]; try discriminate.
    exists c0, c1, rest. repeat split.
    unfold slice_from. simpl. rewrite Nat.sub_0_r.
    now rewrite substring_whole.
Qed.

Lemma IsAccountID_total_witness :
  has0xPrefix "0" = Done false /\ IsAccountID "0" = Done false.
Proof.
  destruct (IsAccountID_total "0") as [[b Hb] [p [Hp [Hshort _]]]].
  split.
  - rewrite Hp. f_equal. apply Hshort. simpl. lia.
  - reflexivity.
Defined.

(** Claim C2, as the code has it.  For every input string that is not 40
    hexadecimal digits after an optional prefix [0x] or [0X], ToAccountID
    returns the empty identifier and the format error. *)
Theorem ToAccountID_rejects_malformed (s : string) :
  ~ OptionalPrefixHex40 s ->
  ToAccountID s = Done ("", Some ErrInvalidAccountFormat)
  /\ Error ErrInvalidAccountFormat = "invalid account format"
  /\ ~ Matches0x40Hex s.
Proof.
  intros Hs. split; [|split].
  - apply IsAccountID_rejects in Hs.
    unfold ToAccountID. rewrite Hs. reflexivity.
  - reflexivity.
  - intros Hm. apply Hs. now apply Matches0x40Hex_optional.
Qed.

Lemma ToAccountID_rejects_malformed_witness :
  ToAccountID "0x1234" = Done ("", Some ErrInvalidAccountFormat).
Proof.
  apply (ToAccountID_rejects_malformed "0x1234").
  apply IsAccountID_rejects. reflexivity.
Defined.

(** Claim C2 as it is stated fails: 40 hexadecimal digits without a prefix
    do not match [0x] and 40 hexadecimal digits, and ToAccountID returns
    them with a nil error. *)
Lemma ToAccountID_bare_hex_not_rejected :
  ~ Matches0x40Hex alice_bare
  /\ ToAccountID alice_bare = Done (alice_bare, None).
Proof.
  split; [|reflexivity].
  intros (body & Heq & _). discriminate Heq.
Qed.

(** The address of a public key has 20 bytes, and its rendering 40
    hexadecimal digits after [0x], in whatever letter case. *)
Lemma BytesToAddress_length (b : list ascii) :
  List.length (BytesToAddress b) = addressLength.
Proof.
  unfold BytesToAddress. rewrite length_app, repeat_length, length_skipn.
  lia.
Qed.

Lemma hex_encode_lower (bs : list ascii) :
  forallb is_lower_hex (list_ascii_of_string (hex_encode bs)) = true.
Proof.
  induction bs as [|b bs IH]; [reflexivity|].
  change (hex_encode (b :: bs)) with (hex_of_byte b ++ hex_encode bs).
  unfold hex_of_byte. cbn [append list_ascii_of_string forallb].
  rewrite IH.
  destruct b as [[] [] [] [] [] [] [] []]; reflexivity.
Qed.

Lemma upper_hex_digit (c : ascii) :
  is_lower_hex c = true ->
  isHexCharacter c = true /\ isHexCharacter (upper_hex c) = true.
Proof.
  destruct c as [[] [] [] [] [] [] [] []]; intros Hc;
    try discriminate Hc; split; reflexivity.
Qed.

Lemma with_case_length (upper : nat -> bool) (s : string) (i : nat) :
  String.length (with_case upper i s) = String.length s.
Proof.
  revert i. induction s as [|c s IH]; intros i; simpl;
    [reflexivity | now rewrite IH].
Qed.

Lemma with_case_digits (upper : nat -> bool) (s : string) (i : nat) :
  forallb is_lower_hex (list_ascii_of_string s) = true ->
  Forall HexDigit (list_ascii_of_string (with_case upper i s)).
Proof.
  revert i. induction s as [|c s IH]; intros i; simpl; [constructor|].
  intros Hall. apply andb_true_iff in Hall as [Hc Hs].
  apply upper_hex_digit in Hc as [Hlow Hup].
  constructor; [|now apply IH].
  apply isHexCharacter_HexDigit. now destruct (upper i).
Qed.

Lemma Address_String_matches `{Crypto} (a : Address) :
  List.length a = addressLength -> Matches0x40Hex (Address_String a).
Proof.
  intros Hlen. exists (with_case (Address_upper a) 0 (hex_encode a)).
  split; [reflexivity|]. split.
  - rewrite with_case_length, hex_encode_length, Hlen. reflexivity.
  - apply with_case_digits, hex_encode_lower.
Qed.

Section Codec.

Context `{Crypto}.

(** Claim C3, as the code has it.  Every AccountID value that ToAccountID
    returns is the empty string or 40 hexadecimal digits after an optional
    prefix [0x] or [0X], hence 40 or 42 characters long; so is every
    value IsAccountID accepts.  Every value that PublicKeyToAccountID
    returns is exactly 42 characters long, [0x] followed by 40
    hexadecimal digits: it meets the invariant of the data model and
    passes IsAccountID. *)
Theorem AccountID_produced_format :
  (forall hex a e, ToAccountID hex = Done (a, e) ->
     a = "" \/ (OptionalPrefixHex40 a /\ (len a = 40 \/ len a = 42)))
  /\ (forall a, IsAccountID a = Done true ->
        OptionalPrefixHex40 a /\ (len a = 40 \/ len a = 42))
  /\ (forall pk,
        Matches0x40Hex (PublicKeyToAccountID pk)
        /\ len (PublicKeyToAccountID pk) = 42
        /\ AccountInvariant (PublicKeyToAccountID pk)
        /\ IsAccountID (PublicKeyToAccountID pk) = Done true).
Proof.
  assert (Hacc : forall a, IsAccountID a = Done true ->
            OptionalPrefixHex40 a /\ (len a = 40 \/ len a = 42)).
  { intros a Ha. apply IsAccountID_accepts in Ha.
    split; [assumption | now apply OptionalPrefixHex40_length]. }
  split; [|split].
  - intros hex a e Hto. unfold ToAccountID in Hto.
    destruct (IsAccountID_returns hex) as [[] Hb]; rewrite Hb in Hto;
      simpl in Hto; injection Hto as <- <-; auto.
  - exact Hacc.
  - intros pk. unfold PublicKeyToAccountID, crypto_PubkeyToAddress.
    pose proof (Address_String_matches (BytesToAddress (crypto_Keccak256 pk))
                  (BytesToAddress_length _)) as Hm.
    assert (Hlen : len (Address_String
                          (BytesToAddress (crypto_Keccak256 pk))) = 42).
    { destruct Hm as (body & -> & Hbody & _). unfold len. simpl.
      now rewrite Hbody. }
    repeat split; try assumption.
    + right. split; assumption.
    + now apply IsAccountID_accepts, Matches0x40Hex_optional.
Qed.

End Codec.

Lemma AccountID_produced_format_witness :
  (alice_0X = "" \/ (OptionalPrefixHex40 alice_0X
                     /\ (len alice_0X = 40 \/ len alice_0X = 42)))
  /\ @PublicKeyToAccountID sample_crypto (repeat "171"%char 32)
     = "0xAbAbAbAbAbAbAbAbAbAbAbAbAbAbAbAbAbAbAbAb"
  /\ IsAccountID (@PublicKeyToAccountID sample_crypto (repeat "171"%char 32))
     = Done true.
Proof.
  destruct (@AccountID_produced_format sample_crypto) as (Hto & _ & Hpk).
  split; [|split].
  - apply (Hto alice_0X alice_0X None). reflexivity.
  - reflexivity.
  - apply Hpk.
Defined.

(** Claim C3 as it is stated fails: ToAccountID returns, and IsAccountID
    accepts, an identifier of 40 characters without the prefix [0x], and
    one of 42 characters whose prefix is [0X]. *)
Lemma AccountID_produced_without_0x :
  ToAccountID alice_bare = Done (alice_bare, None)
  /\ IsAccountID alice_bare = Done true
  /\ len alice_bare = 40
  /\ ~ AccountInvariant alice_bare
  /\ IsAccountID alice_0X = Done true
  /\ ~ AccountInvariant alice_0X.
Proof.
  repeat split; try reflexivity.
  - intros [Hempty | [_ (body & Heq & _)]]; discriminate.
  - intros [Hempty | [_ (body & Heq & _)]]; discriminate.
Qed.

(** Claim C4, as the code has it.  ToAccountID fails with the format error
    unless its input is 40 hexadecimal digits after an optional prefix
    [0x] or [0X].  It fails on the empty string; it returns its input,
    with a nil error, on [0x] and 40 hexadecimal digits and on any 40
    hexadecimal digits after an optional prefix. *)
Theorem ToAccountID_fails_unless_valid (s : string) :
  (~ OptionalPrefixHex40 s ->
     ToAccountID s = Done ("", Some ErrInvalidAccountFormat))
  /\ ToAccountID "" = Done ("", Some ErrInvalidAccountFormat)
  /\ (Matches0x40Hex s -> ToAccountID s = Done (s, None))
  /\ (OptionalPrefixHex40 s -> ToAccountID s = Done (s, None)).
Proof.
  split; [apply ToAccountID_rejected|].
  split; [reflexivity|].
  split; [|apply ToAccountID_accepted].
  intros Hs. now apply ToAccountID_accepted, Matches0x40Hex_optional.
Qed.

Lemma ToAccountID_fails_unless_valid_witness :
  ToAccountID alice = Done (alice, None).
Proof.
  apply (ToAccountID_fails_unless_valid alice).
  apply IsAccountID_accepts. reflexivity.
Defined.

(** Claim C4 as it is stated fails: the empty string meets the invariant
    of the data model, and ToAccountID fails on it. *)
Lemma ToAccountID_fails_on_empty :
  AccountInvariant ""
  /\ ToAccountID "" = Done ("", Some ErrInvalidAccountFormat)
  /\ IsAccountID "" = Done false.
Proof. repeat split. now left. Qed.

(** Claim C8.  ToAccountID is the identity on the strings IsAccountID
    accepts: it returns the string itself with a nil error, and the
    identifier returned passes IsAccountID.  Every string made of [0x]
    and 40 hexadecimal digits is such a string; so is the lower-case
    rendering of any 20 bytes, which denotes the bytes it renders. *)
Theorem ToAccountID_roundtrip :
  (forall s, IsAccountID s = Done true ->
     exists a, ToAccountID s = Done (a, None) /\ a = s
               /\ IsAccountID a = Done true)
  /\ (forall s, Matches0x40Hex s ->
        IsAccountID s = Done true /\ ToAccountID s = Done (s, None))
  /\ (forall bs, List.length bs = addressLength ->
        IsAccountID (render bs) = Done true
        /\ ToAccountID (render bs) = Done (render bs, None)
        /\ address_bytes (render bs) = Some bs).
Proof.
  split; [|split].
  - intros s Hs. exists s. repeat split; try assumption.
    unfold ToAccountID. now rewrite Hs.
  - intros s Hs. apply Matches0x40Hex_optional in Hs. split.
    + now apply IsAccountID_accepts.
    + now apply ToAccountID_accepted.
  - intros bs Hlen. pose proof (render_matches bs Hlen) as Hm.
    apply Matches0x40Hex_optional in Hm. repeat split.
    + now apply IsAccountID_accepts.
    + now apply ToAccountID_accepted.
    + unfold address_bytes, render.
      change ("0x" ++ hex_encode bs)
        with (String "0" (String "x" (hex_encode bs))).
      rewrite strip_0x_prefixed by reflexivity. apply decode_hex_encode.
Qed.

Lemma ToAccountID_roundtrip_witness :
  (exists a, ToAccountID alice_upper = Done (a, None) /\ a = alice_upper
             /\ IsAccountID a = Done true)
  /\ ToAccountID (render (repeat "171"%char 20))
     = Done ("0xabababababababababababababababababababab", None).
Proof.
  destruct ToAccountID_roundtrip as (Hid & _ & Hrender). split.
  - apply (Hid alice_upper). reflexivity.
  - apply (Hrender (repeat "171"%char 20)). reflexivity.
Defined.

(** ** Transactions *)

Lemma first_finding_None (findings : list (option error)) :
  first_finding findings = None <-> (forall f, In f findings -> f = None).
Proof.
  induction findings as [|[e|] rest IH]; simpl.
  - split; [intros _ f [] | reflexivity].
  - split; [discriminate|]. intros Hall. apply Hall. now left.
  - rewrite IH. split.
    + intros Hall f [<-|Hin]; [reflexivity | now apply Hall].
    + intros Hall f Hin. apply Hall. now right.
Qed.

Lemma all_checks_complete (k : check) : In k all_checks.
Proof. destruct k; simpl; tauto. Qed.

(** Claim C6.  NewTx returns, on every input: the zero Tx and the sender
    format error when fromID fails IsAccountID; the zero Tx and the
    recipient format error when fromID passes and toID fails; otherwise a
    nil error and the Tx whose seven fields are the arguments.  It does
    not compare fromID with toID: equal, well-formed identifiers give a
    Tx. *)
Theorem NewTx_result (chainID nonce : N) (fromID toID : AccountID)
    (value tip : N) (data : option (list ascii)) :
  (exists r, NewTx chainID nonce fromID toID value tip data = Done r)
  /\ (IsAccountID fromID = Done false ->
        NewTx chainID nonce fromID toID value tip data
        = Done (Tx_zero, Some ErrFromFormat))
  /\ (IsAccountID fromID = Done true -> IsAccountID toID = Done false ->
        NewTx chainID nonce fromID toID value tip data
        = Done (Tx_zero, Some ErrToFormat))
  /\ (IsAccountID fromID = Done true -> IsAccountID toID = Done true ->
        exists tx,
          NewTx chainID nonce fromID toID value tip data = Done (tx, None)
          /\ ChainID tx = chainID /\ Nonce tx = nonce
          /\ FromID tx = fromID /\ ToID tx = toID
          /\ Value tx = value /\ Tip tx = tip /\ Data tx = data)
  /\ (fromID = toID -> IsAccountID fromID = Done true ->
        NewTx chainID nonce fromID toID value tip data
        = Done (mkTx chainID nonce fromID fromID value tip data, None)).
Proof.
  unfold NewTx.
  destruct (IsAccountID_returns fromID) as [bf Hf].
  destruct (IsAccountID_returns toID) as [bt Ht].
  rewrite Hf, Ht. repeat split.
  - destruct bf, bt; simpl; eauto.
  - intros [= ->]. reflexivity.
  - intros [= ->] [= ->]. reflexivity.
  - intros [= ->] [= ->]. simpl. eexists. repeat split.
  - intros <-. intros [= ->]. rewrite Hf in Ht. injection Ht as <-.
    reflexivity.
Qed.

Lemma NewTx_result_witness :
  NewTx 1 0 alice alice 100 1 None = Done (alice_to_alice, None)
  /\ NewTx 1 0 alice "0x1234" 100 1 None = Done (Tx_zero, Some ErrToFormat).
Proof.
  split.
  - apply (NewTx_result 1 0 alice alice 100 1 None); reflexivity.
  - apply (NewTx_result 1 0 alice "0x1234" 100 1 None); reflexivity.
Defined.

Section TransactionProperties.

Context `{Signature}.

(** Claim C7.  Sign returns an error exactly when signature.Sign does, the
    same error, and then the zero SignedTx; when signature.Sign returns
    no error, Sign returns the SignedTx that embeds the Tx, field for
    field, with the V, R and S that signature.Sign produced. *)
Theorem Sign_result (tx : Tx) (privateKey : PrivateKey)
    (v r s : bigInt) (err : option error) :
  signature_Sign tx privateKey = (v, r, s, err) ->
  (snd (Sign tx privateKey) <> None <-> err <> None)
  /\ snd (Sign tx privateKey) = err
  /\ (err <> None -> fst (Sign tx privateKey) = SignedTx_zero)
  /\ (err = None ->
        Sign tx privateKey = (mkSignedTx tx v r s, None)
        /\ Tx_ (fst (Sign tx privateKey)) = tx
        /\ V (fst (Sign tx privateKey)) = v
        /\ R (fst (Sign tx privateKey)) = r
        /\ S' (fst (Sign tx privateKey)) = s).
Proof.
  intros Hsig. unfold Sign. rewrite Hsig.
  destruct err as [e|]; simpl; repeat split; congruence.
Qed.

Lemma Validate_eval (tx : SignedTx) (chainID : N) :
  Validate tx chainID
  = Done (first_finding (map (check_finding tx chainID) all_checks)).
Proof.
  unfold Validate, all_checks. cbn [map first_finding check_finding].
  destruct (ChainID (Tx_ tx) =? chainID)%N; cbn [negb]; [|reflexivity].
  destruct (IsAccountID_returns (FromID (Tx_ tx))) as [[] ->]; cbn [bind negb];
    [|reflexivity].
  destruct (IsAccountID_returns (ToID (Tx_ tx))) as [[] ->]; cbn [bind negb];
    [|reflexivity].
  destruct (String.eqb (FromID (Tx_ tx)) (ToID (Tx_ tx))); [reflexivity|].
  destruct (signature_VerifySignature (V tx) (R tx) (S' tx)); [reflexivity|].
  destruct (signature_FromAddress (Tx_ tx) (V tx) (R tx) (S' tx))
    as [address [e|]]; [reflexivity|].
  destruct (String.eqb address (FromID (Tx_ tx))); reflexivity.
Qed.

Lemma Validate_returns (tx : SignedTx) (chainID : N) :
  exists r, Validate tx chainID = Done r.
Proof. rewrite Validate_eval. eauto. Qed.

(** Claim C1.  Validate runs the six checks in the order chain id, format
    of FromID, format of ToID, self-transfer, form of the signature,
    recovered signer, and returns what the first failing check reports:
    a check that fails while every check before it passes decides the
    result.  It returns nil exactly when all six pass. *)
Theorem Validate_check_order (tx : SignedTx) (chainID : N) :
  Validate tx chainID
  = Done (first_finding (map (check_finding tx chainID) all_checks))
  /\ (forall k e,
        check_finding tx chainID k = Some e ->
        (forall j, check_rank j < check_rank k ->
                   check_finding tx chainID j = None) ->
        Validate tx chainID = Done (Some e))
  /\ (Validate tx chainID = Done None
      <-> forall k, check_finding tx chainID k = None)
  /\ (Validate tx chainID = Done None
      <-> ChainID (Tx_ tx) = chainID
          /\ IsAccountID (FromID (Tx_ tx)) = Done true
          /\ IsAccountID (ToID (Tx_ tx)) = Done true
          /\ FromID (Tx_ tx) <> ToID (Tx_ tx)
          /\ signature_VerifySignature (V tx) (R tx) (S' tx) = None
          /\ signature_FromAddress (Tx_ tx) (V tx) (R tx) (S' tx)
             = (FromID (Tx_ tx), None)).
Proof.
  assert (Hall : Validate tx chainID = Done None
                 <-> forall k, check_finding tx chainID k = None).
  { rewrite Validate_eval. split.
    - intros Hnone k.
      assert (Hf : first_finding (map (check_finding tx chainID) all_checks)
                   = None) by congruence.
      apply (proj1 (first_finding_None _) Hf).
      apply in_map, all_checks_complete.
    - intros Hk. f_equal. apply first_finding_None.
      intros f Hin. apply in_map_iff in Hin as (k & <- & _). apply Hk. }
  split; [apply Validate_eval|]. split.
  - intros k e Hk Hbefore. rewrite Validate_eval. unfold all_checks.
    cbn [map].
    cbn [first_finding].
    destruct k;
      try rewrite (Hbefore ChainIDCheck) by (simpl; lia);
      try rewrite (Hbefore FromFormatCheck) by (simpl; lia);
      try rewrite (Hbefore ToFormatCheck) by (simpl; lia);
      try rewrite (Hbefore SelfTransferCheck) by (simpl; lia);
      try rewrite (Hbefore SignatureFormCheck) by (simpl; lia);
      rewrite Hk; reflexivity.
  - split; [exact Hall|]. rewrite Hall. split.
    + intros Hk.
      pose proof (Hk ChainIDCheck) as H1. pose proof (Hk FromFormatCheck) as H2.
      pose proof (Hk ToFormatCheck) as H3. pose proof (Hk SelfTransferCheck) as H4.
      pose proof (Hk SignatureFormCheck) as H5. pose proof (Hk SignerCheck) as H6.
      cbn [check_finding] in *.
      destruct (N.eqb_spec (ChainID (Tx_ tx)) chainID); [|discriminate].
      destruct (IsAccountID (FromID (Tx_ tx))) as [[]|]; try discriminate.
      destruct (IsAccountID (ToID (Tx_ tx))) as [[]|]; try discriminate.
      destruct (String.eqb_spec (FromID (Tx_ tx)) (ToID (Tx_ tx)));
        [discriminate|].
      destruct (signature_FromAddress (Tx_ tx) (V tx) (R tx) (S' tx))
        as [recovered [e'|]]; [discriminate|].
      destruct (String.eqb_spec recovered (FromID (Tx_ tx)));
        [subst recovered | discriminate].
      repeat split; assumption.
    + intros (Hc & Hf & Ht & Hne & Hv & Hr) k.
      destruct k; cbn [check_finding].
      * apply N.eqb_eq in Hc. now rewrite Hc.
      * now rewrite Hf.
      * now rewrite Ht.
      * apply String.eqb_neq in Hne. now rewrite Hne.
      * exact Hv.
      * rewrite Hr, String.eqb_refl. reflexivity.
Qed.

(** Claim C5.  A transaction whose FromID equals its ToID never passes
    validation: Validate returns an error on it, whatever its signature
    and the expected chain id.  When the chain id is the expected one
    and the identifier is well formed, the error is the self-transfer
    error.  Hence a Tx that NewTx has built from equal identifiers is
    rejected by Validate under every signature. *)
Theorem Validate_rejects_self_transfer :
  (forall tx chainID,
     FromID (Tx_ tx) = ToID (Tx_ tx) ->
     (exists e, Validate tx chainID = Done (Some e))
     /\ Validate tx chainID <> Done None
     /\ (ChainID (Tx_ tx) = chainID ->
         IsAccountID (FromID (Tx_ tx)) = Done true ->
         IsAccountID (ToID (Tx_ tx)) = Done true ->
         Validate tx chainID
         = Done (Some (ErrSelfTransfer (FromID (Tx_ tx)) (ToID (Tx_ tx))))))
  /\ (forall chainID nonce a value tip data t,
        NewTx chainID nonce a a value tip data = Done (t, None) ->
        forall v r s expected,
          exists e, Validate (mkSignedTx t v r s) expected = Done (Some e)).
Proof.
  assert (Hself : forall tx chainID,
            FromID (Tx_ tx) = ToID (Tx_ tx) ->
            exists e, Validate tx chainID = Done (Some e)).
  { intros tx chainID Heq. unfold Validate. rewrite <- Heq.
    destruct (ChainID (Tx_ tx) =? chainID)%N; cbn [negb]; [|eauto].
    destruct (IsAccountID_returns (FromID (Tx_ tx))) as [[] ->];
      cbn [bind negb]; [|eauto].
    rewrite String.eqb_refl. eauto. }
  split.
  - intros tx chainID Heq. split; [now apply Hself|]. split.
    + destruct (Hself tx chainID Heq) as [e ->]. discriminate.
    + intros Hc Hf Ht. unfold Validate.
      apply N.eqb_eq in Hc. rewrite Hc, Hf, Ht. cbn [bind negb].
      rewrite <- Heq, String.eqb_refl. reflexivity.
  - intros chainID nonce a value tip data t Hnew v r s expected.
    apply Hself. cbn [Tx_].
    unfold NewTx in Hnew.
    destruct (IsAccountID_returns a) as [[] Ha]; rewrite Ha in Hnew;
      cbn [bind negb] in Hnew; [|discriminate].
    injection Hnew as <-. reflexivity.
Qed.

(** Claim C10.  The codec does not normalise and identifiers are compared
    as text.  ToAccountID returns its input unchanged when it succeeds,
    so distinct accepted strings give distinct identifiers, also when
    they denote the same 20 bytes and differ in letter case or in the
    prefix only.  The last check of Validate compares the recovered
    address with FromID as strings: it returns the signature mismatch
    error whenever the two differ, whatever bytes they denote, and nil
    when they are equal. *)
Theorem identifiers_compared_verbatim :
  (forall hex a, ToAccountID hex = Done (a, None) -> a = hex)
  /\ (forall a b,
        IsAccountID a = Done true -> IsAccountID b = Done true -> a <> b ->
        exists ida idb,
          ToAccountID a = Done (ida, None) /\ ToAccountID b = Done (idb, None)
          /\ ida <> idb)
  /\ (SameAddress alice alice_upper /\ alice <> alice_upper
      /\ SameAddress alice alice_bare /\ alice <> alice_bare
      /\ SameAddress alice alice_0X /\ alice <> alice_0X)
  /\ (forall tx chainID recovered,
        ChainID (Tx_ tx) = chainID ->
        IsAccountID (FromID (Tx_ tx)) = Done true ->
        IsAccountID (ToID (Tx_ tx)) = Done true ->
        FromID (Tx_ tx) <> ToID (Tx_ tx) ->
        signature_VerifySignature (V tx) (R tx) (S' tx) = None ->
        signature_FromAddress (Tx_ tx) (V tx) (R tx) (S' tx)
        = (recovered, None) ->
        (recovered <> FromID (Tx_ tx) ->
         Validate tx chainID = Done (Some ErrSignatureMismatch))
        /\ (recovered = FromID (Tx_ tx) -> Validate tx chainID = Done None)).
Proof.
  split; [|split; [|split]].
  - intros hex a Hto.
    destruct (ToAccountID_returns hex) as [Hr|Hr]; rewrite Hr in Hto;
      congruence.
  - intros a b Ha Hb Hne. exists a, b.
    unfold ToAccountID. rewrite Ha, Hb. auto.
  - repeat split; try discriminate;
      (eexists; split; vm_compute; reflexivity).
  - intros tx chainID recovered Hc Hf Ht Hne Hv Hr.
    unfold Validate. apply N.eqb_eq in Hc. apply String.eqb_neq in Hne.
    rewrite Hc, Hf, Ht. cbn [bind negb]. rewrite Hne, Hv, Hr. split.
    + intros Hd. apply String.eqb_neq in Hd. now rewrite Hd.
    + intros ->. now rewrite String.eqb_refl.
Qed.

End TransactionProperties.

(** ** The theorems at sample transactions *)

Example Validate_other_chain :
  @Validate sample_signature (signed_by alice_to_bob 1) 2
  = Done (Some (mkError "invalid chain id, got[1] exp[2]")).
Proof. reflexivity. Qed.

Example Validate_signed_by_nobody :
  @Validate sample_signature (signed_by alice_to_bob 3) 1
  = Done (Some (errors_New "recovery failed")).
Proof. reflexivity. Qed.

Lemma Sign_result_witness :
  @Sign sample_signature alice_to_bob 1%N = (signed_by alice_to_bob 1, None)
  /\ fst (@Sign sample_signature alice_to_bob 0%N) = SignedTx_zero.
Proof.
  split.
  - apply (@Sign_result sample_signature alice_to_bob 1%N
             (Some 29%Z) (Some 1%Z) (Some 7%Z) None); reflexivity.
  - apply (@Sign_result sample_signature alice_to_bob 0%N
             None None None (Some (errors_New "invalid private key")));
      [reflexivity | discriminate].
Defined.

Lemma Validate_check_order_witness :
  @Validate sample_signature (mkSignedTx alice_to_alice None None None) 1
  = Done (Some (ErrSelfTransfer alice alice))
  /\ @Validate sample_signature (signed_by alice_to_bob 1) 1 = Done None.
Proof.
  split.
  - apply (proj1 (proj2 (@Validate_check_order sample_signature
                           (mkSignedTx alice_to_alice None None None) 1%N))
             SelfTransferCheck); [reflexivity|].
    intros j Hj. destruct j; simpl in Hj; try lia; reflexivity.
  - apply (proj2 (proj2 (proj2 (@Validate_check_order sample_signature
                                  (signed_by alice_to_bob 1) 1%N)))).
    repeat split. discriminate.
Defined.

Lemma Validate_rejects_self_transfer_witness :
  @Validate sample_signature (signed_by alice_to_alice 1) 1
  = Done (Some (ErrSelfTransfer alice alice)).
Proof.
  apply (proj1 (@Validate_rejects_self_transfer sample_signature)
           (signed_by alice_to_alice 1) 1%N); reflexivity.
Defined.

Lemma identifiers_compared_verbatim_witness :
  SameAddress alice_upper (FromID alice_to_bob)
  /\ @Validate sample_signature (signed_by alice_to_bob 2) 1
     = Done (Some ErrSignatureMismatch).
Proof.
  split.
  - eexists. split; vm_compute; reflexivity.
  - apply (proj2 (proj2 (proj2 (@identifiers_compared_verbatim
                                  sample_signature)))
             (signed_by alice_to_bob 2) 1%N alice_upper);
      try reflexivity; discriminate.
Defined.

(** ** Further properties of the identifier codec *)

Lemma string_pairs_ind (P : string -> Prop) :
  P "" ->
  (forall c, P (String c "")) ->
  (forall c0 c1 rest, P rest -> P (String c0 (String c1 rest))) ->
  forall s, P s.
Proof.
  intros Hnil Hone Hpair s.
  assert (Hboth : P s /\ forall c, P (String c s)).
  { induction s as [|c s [IHs IHc]]; [auto|].
    split; [apply IHc|]. intros c'. now apply Hpair. }
  apply Hboth.
Qed.

Lemma hex_value_isHexCharacter (c : ascii) :
  isHexCharacter c = true <-> exists v, hex_value c = Some v.
Proof.
  unfold isHexCharacter, hex_value.
  destruct (Ascii.leb "0" c && Ascii.leb c "9");
    destruct (Ascii.leb "a" c && Ascii.leb c "f");
    destruct (Ascii.leb "A" c && Ascii.leb c "F"); simpl;
    (split; [intros Ht | intros [v Hv]]); try discriminate; eauto.
Qed.

Lemma decode_hex_defined (s : string) :
  (exists bs, decode_hex s = Some bs)
  <-> (exists k, len s = 2 * k) /\ isHex_range (bytes_of s) = true.
Proof.
  unfold len, bytes_of.
  pattern s. apply string_pairs_ind; clear s; [| intros c | intros c0 c1 rest IH].
  - split; [intros _; split; [now exists 0 | reflexivity]
           | intros _; now exists [] ].
  - split; [intros [bs Hbs]; discriminate|].
    intros [[k Hk] _]. simpl in Hk. lia.
  - cbn [decode_hex list_ascii_of_string isHex_range String.length].
    destruct (isHexCharacter c0) eqn:H0; cbn [negb].
    + destruct (isHexCharacter c1) eqn:H1; cbn [negb].
      * apply hex_value_isHexCharacter in H0 as [v0 ->].
        apply hex_value_isHexCharacter in H1 as [v1 ->].
        split.
        -- intros [bs Hbs].
           destruct (decode_hex rest) as [bs'|]; [|discriminate].
           destruct (proj1 IH (ex_intro _ bs' eq_refl)) as [[k Hk] Hr].
           split; [exists (S k); lia | assumption].
        -- intros [[k Hk] Hr].
           destruct (proj2 IH) as [bs' ->]; [|eauto].
           split; [exists (k - 1); lia | assumption].
      * split; [|intros [_ Hf]; discriminate].
        intros [bs Hbs].
        destruct (hex_value c0); [|discriminate].
        destruct (hex_value c1) eqn:Hv1; [|discriminate].
        assert (isHexCharacter c1 = true)
          by (apply hex_value_isHexCharacter; eauto).
        congruence.
    + split; [|intros [_ Hf]; discriminate].
      intros [bs Hbs].
      destruct (hex_value c0) eqn:Hv0; [|discriminate].
      assert (isHexCharacter c0 = true)
        by (apply hex_value_isHexCharacter; eauto).
      congruence.
Qed.

Lemma decode_hex_length (s : string) (bs : list ascii) :
  decode_hex s = Some bs -> len s = 2 * List.length bs.
Proof.
  unfold len. revert bs.
  pattern s. apply string_pairs_ind; clear s;
    [intros bs | intros c bs | intros c0 c1 rest IH bs].
  - intros [= <-]. reflexivity.
  - discriminate.
  - cbn [decode_hex].
    destruct (hex_value c0); [|discriminate].
    destruct (hex_value c1); [|discriminate].
    destruct (decode_hex rest) as [bs'|]; [|discriminate].
    intros [= <-]. simpl. rewrite (IH bs' eq_refl). lia.
Qed.

Lemma even_length_mod (n : nat) : n mod 2 = 0 <-> exists k, n = 2 * k.
Proof.
  split.
  - intros Hm. exists (n / 2). pose proof (Nat.div_mod_eq n 2). lia.
  - intros [k ->]. rewrite Nat.mul_comm. apply Nat.Div0.mod_mul.
Qed.

(** isHexCharacter accepts the 22 hexadecimal digits of ASCII, in either
    letter case, and no other byte: not [x], not a letter after [f], no
    byte above 127. *)
Theorem isHexCharacter_exact (c : ascii) :
  (isHexCharacter c = true <-> HexDigit c)
  /\ (isHexCharacter c = true ->
      (N_of_ascii c < 128)%N /\ c <> "x"%char /\ c <> "X"%char
      /\ c <> "g"%char /\ c <> "G"%char).
Proof.
  split; [apply isHexCharacter_HexDigit|].
  destruct c as [[] [] [] [] [] [] [] []]; intros Hc;
    try discriminate Hc; repeat split; discriminate.
Qed.

Lemma isHexCharacter_exact_witness :
  (N_of_ascii "F" < 128)%N /\ isHexCharacter "G" = false.
Proof.
  split.
  - apply (isHexCharacter_exact "F"). reflexivity.
  - reflexivity.
Defined.

(** isHex holds of the strings of even length made of hexadecimal digits
    only, the empty string among them; a string of odd length is not
    hex, whatever its bytes. *)
Theorem isHex_even_hex (a : AccountID) :
  (isHex a = true
   <-> (exists k, len a = 2 * k) /\ Forall HexDigit (bytes_of a))
  /\ ((exists k, len a = 2 * k + 1) -> isHex a = false).
Proof.
  unfold isHex. split.
  - destruct (Nat.eqb_spec (len a mod 2) 0) as [He|Ho]; cbn [negb].
    + rewrite isHex_range_Forall. apply even_length_mod in He. tauto.
    + split; [discriminate|]. intros [He _].
      apply even_length_mod in He. contradiction.
  - intros [k Hk].
    destruct (Nat.eqb_spec (len a mod 2) 0) as [He|Ho]; [|reflexivity].
    apply even_length_mod in He as [k' Hk']. lia.
Qed.

Lemma isHex_even_hex_witness : isHex "abc" = false /\ isHex "" = true.
Proof.
  split.
  - apply (isHex_even_hex "abc"). exists 1. reflexivity.
  - apply (isHex_even_hex ""). split; [now exists 0 | constructor].
Defined.

(** has0xPrefix holds exactly of the strings that begin with [0x] or
    [0X], and answers [false] on every other string, the strings of
    fewer than two bytes included. *)
Theorem has0xPrefix_exact (a : AccountID) :
  (has0xPrefix a = Done true
   <-> exists rest, a = "0x" ++ rest \/ a = "0X" ++ rest)
  /\ (has0xPrefix a = Done false
      <-> ~ exists rest, a = "0x" ++ rest \/ a = "0X" ++ rest).
Proof.
  assert (Hiff : starts_0x a = true
                 <-> exists rest, a = "0x" ++ rest \/ a = "0X" ++ rest).
  { destruct a as [|c0 [|c1 rest]].
    - split; [discriminate | intros [r [Hr|Hr]]; discriminate].
    - split; [discriminate | intros [r [Hr|Hr]]; discriminate].
    - cbn [starts_0x]. rewrite andb_true_iff, orb_true_iff.
      rewrite !Ascii.eqb_eq. split.
      + intros [-> [->| ->]]; exists rest; auto.
      + intros [r [Hr|Hr]]; injection Hr as -> -> _; auto. }
  rewrite has0xPrefix_eval, <- Hiff.
  destruct (starts_0x a); split; split; congruence.
Qed.

(** IsAccountID accepts exactly the identifiers that denote 20 bytes:
    those whose hexadecimal digits, after the prefix [0x] or [0X] when
    there is one, decode to a sequence of 20 bytes. *)
Theorem IsAccountID_twenty_bytes (a : AccountID) :
  IsAccountID a = Done true
  <-> exists bs, address_bytes a = Some bs /\ List.length bs = addressLength.
Proof.
  rewrite IsAccountID_eval. unfold address_bytes, isHex, addressLength.
  split.
  - intros [= Hb]. apply andb_true_iff in Hb as [Hlen Hhex].
    apply Nat.eqb_eq in Hlen. rewrite Hlen in Hhex. cbn in Hhex.
    destruct (proj2 (decode_hex_defined (strip_0x a))) as [bs Hbs].
    { split; [exists 20; rewrite Hlen; reflexivity | assumption]. }
    exists bs. split; [assumption|].
    apply decode_hex_length in Hbs. lia.
  - intros (bs & Hbs & Hlen). f_equal.
    pose proof (decode_hex_length _ _ Hbs) as Hl.
    destruct (proj1 (decode_hex_defined (strip_0x a))) as [_ Hr]; [eauto|].
    rewrite Hl, Hlen. cbn. assumption.
Qed.

Lemma IsAccountID_after_prefix (c : ascii) (a : AccountID) :
  c = "x"%char \/ c = "X"%char ->
  IsAccountID (String "0" (String c a))
  = Done ((len a =? 2 * addressLength)%nat && isHex a).
Proof.
  intros Hc. rewrite IsAccountID_eval.
  rewrite strip_0x_prefixed; [reflexivity|].
  destruct Hc as [-> | ->]; reflexivity.
Qed.

(** IsAccountID strips one prefix and no more.  Of an identifier it
    accepts, the one that begins with [0x] or [0X] is rejected once a
    second prefix is put in front, while its suffix from 2 is accepted
    and has no prefix; the one without a prefix is accepted again with
    [0x] or [0X] in front. *)
Theorem IsAccountID_single_prefix (a : AccountID) :
  IsAccountID a = Done true ->
  (has0xPrefix a = Done true ->
     IsAccountID ("0x" ++ a) = Done false
     /\ IsAccountID ("0X" ++ a) = Done false
     /\ exists rest, slice_from a 2 = Done rest
                     /\ IsAccountID rest = Done true
                     /\ has0xPrefix rest = Done false)
  /\ (has0xPrefix a = Done false ->
        IsAccountID ("0x" ++ a) = Done true
        /\ IsAccountID ("0X" ++ a) = Done true).
Proof.
  intros Ha. cbn [append].
  rewrite !IsAccountID_after_prefix by auto.
  rewrite has0xPrefix_eval.
  pose proof Ha as Hok. rewrite IsAccountID_eval in Hok.
  injection Hok as Hok. split; intros [= Hp].
  - destruct a as [|c0 [|c1 rest]]; try discriminate.
    rewrite (strip_0x_prefixed _ _ _ Hp) in Hok.
    pose proof Hok as Hbody. apply Hex40_isHex in Hbody.
    apply andb_true_iff in Hok as [Hlen _]. apply Nat.eqb_eq in Hlen.
    assert (Hlong : (len (String c0 (String c1 rest))
                     =? 2 * addressLength)%nat = false).
    { apply Nat.eqb_neq. unfold len in *. simpl in *. lia. }
    rewrite Hlong. repeat split.
    exists rest. repeat split.
    + unfold slice_from. simpl. rewrite Nat.sub_0_r.
      now rewrite substring_whole.
    + apply IsAccountID_accepts. exists "", rest. simpl. auto.
    + rewrite has0xPrefix_eval. f_equal. now apply Hex40_not_prefixed.
  - unfold strip_0x in Hok. rewrite Hp in Hok.
    split; f_equal; exact Hok.
Qed.

Lemma IsAccountID_single_prefix_witness :
  IsAccountID ("0x" ++ alice) = Done false
  /\ IsAccountID ("0X" ++ alice_bare) = Done true.
Proof.
  split.
  - apply (IsAccountID_single_prefix alice); reflexivity.
  - apply (IsAccountID_single_prefix alice_bare); reflexivity.
Defined.

(** ToAccountID returns a nil error exactly when IsAccountID accepts its
    input.  With an error it returns the empty identifier, which
    IsAccountID itself rejects, so that an identifier returned beside
    an error is never a usable one; the error is the format error. *)
Theorem ToAccountID_error_iff (hex : string) (a : AccountID)
    (e : option error) :
  ToAccountID hex = Done (a, e) ->
  (e = None <-> IsAccountID hex = Done true)
  /\ (e = None -> IsAccountID a = Done true)
  /\ (e <> None ->
      a = "" /\ IsAccountID a = Done false
      /\ e = Some ErrInvalidAccountFormat).
Proof.
  unfold ToAccountID.
  destruct (IsAccountID_returns hex) as [[] Hb]; rewrite Hb; cbn [bind negb];
    intros [= <- <-].
  - repeat split; congruence.
  - repeat split; try congruence; discriminate.
Qed.

Lemma ToAccountID_error_iff_witness :
  IsAccountID "0x12" = Done false /\ IsAccountID alice_0X = Done true.
Proof.
  split.
  - assert (Hne : Some ErrInvalidAccountFormat <> None) by discriminate.
    destruct (ToAccountID_error_iff "0x12" "" (Some ErrInvalidAccountFormat)
                eq_refl) as (Hiff & _ & _).
    destruct (IsAccountID_returns "0x12") as [[] Hb]; [|exact Hb].
    apply Hiff in Hb. discriminate Hb.
  - apply (ToAccountID_error_iff alice_0X alice_0X None eq_refl).
    reflexivity.
Defined.

(** ** Further properties of transactions *)

(** A Tx that NewTx returns with a nil error has a FromID and a ToID that
    both pass IsAccountID, and NewTx returns a nil error exactly when
    both arguments pass.  With an error it returns the zero Tx, whose
    identifiers do not pass: the Tx returned beside an error is never a
    well-formed one. *)
Theorem NewTx_well_formed (chainID nonce : N) (fromID toID : AccountID)
    (value tip : N) (data : option (list ascii)) (tx : Tx)
    (e : option error) :
  NewTx chainID nonce fromID toID value tip data = Done (tx, e) ->
  (e = None
   <-> IsAccountID fromID = Done true /\ IsAccountID toID = Done true)
  /\ (e = None ->
      IsAccountID (FromID tx) = Done true
      /\ IsAccountID (ToID tx) = Done true)
  /\ (e <> None ->
      tx = Tx_zero
      /\ IsAccountID (FromID tx) = Done false
      /\ IsAccountID (ToID tx) = Done false).
Proof.
  unfold NewTx.
  destruct (IsAccountID_returns fromID) as [[] Hf]; rewrite Hf;
    cbn [bind negb].
  - destruct (IsAccountID_returns toID) as [[] Ht]; rewrite Ht;
      cbn [bind negb]; intros [= <- <-]; cbn [FromID ToID].
    + repeat split; try assumption; try congruence.
      all: intros Hne; now contradiction Hne.
    + repeat split; try congruence; try discriminate.
      intros [_ [=]].
  - intros [= <- <-]. repeat split; try congruence; try discriminate.
    intros [[=] _].
Qed.

Lemma NewTx_well_formed_witness :
  IsAccountID (FromID alice_to_bob) = Done true
  /\ IsAccountID (ToID alice_to_bob) = Done true.
Proof.
  apply (NewTx_well_formed 1 0 alice bob 100 1 None alice_to_bob None);
    reflexivity.
Defined.

Section TransactionFlow.

Context `{Signature}.

(** NewTx and Validate agree on the format checks.  When NewTx rejects
    its arguments, Validate returns the very same error on a signed
    transaction that carries them, under any signature, the chain id
    being the expected one; when NewTx accepts them, neither format check
    of Validate finds anything. *)
Theorem NewTx_Validate_agree (chainID nonce : N) (fromID toID : AccountID)
    (value tip : N) (data : option (list ascii)) (v r s : bigInt) :
  let stx := mkSignedTx (mkTx chainID nonce fromID toID value tip data) v r s in
  (forall t e,
     NewTx chainID nonce fromID toID value tip data = Done (t, Some e) ->
     Validate stx chainID = Done (Some e))
  /\ (forall t,
        NewTx chainID nonce fromID toID value tip data = Done (t, None) ->
        t = Tx_ stx
        /\ check_finding stx chainID ChainIDCheck = None
        /\ check_finding stx chainID FromFormatCheck = None
        /\ check_finding stx chainID ToFormatCheck = None).
Proof.
  intros stx. unfold NewTx, Validate. subst stx.
  cbn [Tx_ ChainID FromID ToID check_finding].
  rewrite N.eqb_refl. cbn [negb].
  destruct (IsAccountID_returns fromID) as [[] ->]; cbn [bind negb].
  - destruct (IsAccountID_returns toID) as [[] ->]; cbn [bind negb]; split.
    + intros t e [=].
    + intros t [= <-]. auto.
    + intros t e [= _ <-]. reflexivity.
    + intros t [=].
  - split.
    + intros t e [= _ <-]. reflexivity.
    + intros t [=].
Qed.

(** What Sign returns beside an error never passes validation: Validate
    rejects it for every expected chain id, with the chain id error, or
    with the sender format error when the expected chain id is 0. *)
Theorem Validate_rejects_failed_Sign (tx : Tx) (privateKey : PrivateKey)
    (stx : SignedTx) (e : error) :
  Sign tx privateKey = (stx, Some e) ->
  forall chainID,
    Validate stx chainID <> Done None
    /\ (chainID <> 0%N ->
        Validate stx chainID = Done (Some (ErrChainID 0 chainID)))
    /\ (chainID = 0%N -> Validate stx chainID = Done (Some ErrFromFormat)).
Proof.
  unfold Sign.
  destruct (signature_Sign tx privateKey) as [[[v r] s] [err|]];
    intros [= <- _] chainID.
  unfold Validate, SignedTx_zero, Tx_zero. cbn [Tx_ ChainID FromID ToID].
  destruct (N.eqb_spec 0 chainID) as [<-|Hne]; cbn [negb].
  - repeat split; try discriminate. intros Hc. now contradiction Hc.
  - repeat split; try discriminate. intros Hc. congruence.
Qed.

(** A Tx built by NewTx and signed by Sign passes the chain id and format
    checks of Validate under its own chain id.  With equal identifiers
    Validate returns the self-transfer error; with different ones the
    result is decided by the signature alone: the first finding of the
    signature form and signer checks, hence nil when the signature is
    well formed and the signer recovered is FromID.  Under any other
    chain id Validate returns the chain id error. *)
Theorem Validate_after_NewTx_Sign (chainID nonce : N)
    (fromID toID : AccountID) (value tip : N) (data : option (list ascii))
    (tx : Tx) (privateKey : PrivateKey) (stx : SignedTx) :
  NewTx chainID nonce fromID toID value tip data = Done (tx, None) ->
  Sign tx privateKey = (stx, None) ->
  (fromID = toID ->
     Validate stx chainID = Done (Some (ErrSelfTransfer fromID toID)))
  /\ (fromID <> toID ->
        Validate stx chainID
        = Done (first_finding
                  [check_finding stx chainID SignatureFormCheck;
                   check_finding stx chainID SignerCheck]))
  /\ (fromID <> toID ->
        signature_VerifySignature (V stx) (R stx) (S' stx) = None ->
        signature_FromAddress tx (V stx) (R stx) (S' stx) = (fromID, None) ->
        Validate stx chainID = Done None)
  /\ (forall other, other <> chainID ->
        Validate stx other = Done (Some (ErrChainID chainID other))).
Proof.
  intros Hnew Hsign.
  assert (Hbuilt : tx = mkTx chainID nonce fromID toID value tip data
                   /\ IsAccountID fromID = Done true
                   /\ IsAccountID toID = Done true).
  { unfold NewTx in Hnew.
    destruct (IsAccountID_returns fromID) as [[] Hbf]; rewrite Hbf in Hnew;
      cbn [bind negb] in Hnew; [|discriminate].
    destruct (IsAccountID_returns toID) as [[] Hbt]; rewrite Hbt in Hnew;
      cbn [bind negb] in Hnew; [|discriminate].
    injection Hnew as <-. auto. }
  destruct Hbuilt as (Htx & Hf & Ht).
  assert (Hstx : Tx_ stx = tx).
  { unfold Sign in Hsign.
    destruct (signature_Sign tx privateKey) as [[[v r] s] [err|]];
      [discriminate|]. now injection Hsign as <-. }
  subst tx.
  rewrite Validate_eval. unfold all_checks. cbn [map first_finding].
  cbn [check_finding]. rewrite Hstx. cbn [ChainID FromID ToID].
  rewrite Hf, Ht. repeat split.
  - intros <-. now rewrite N.eqb_refl, String.eqb_refl.
  - intros Hne. apply String.eqb_neq in Hne.
    now rewrite N.eqb_refl, Hne.
  - intros Hne Hv Hr. apply String.eqb_neq in Hne.
    rewrite N.eqb_refl, Hne, Hv, Hr. now rewrite String.eqb_refl.
  - intros other Hother. apply not_eq_sym, N.eqb_neq in Hother.
    unfold Validate. rewrite Hstx. cbn [ChainID].
    now rewrite Hother.
Qed.

End TransactionFlow.

Lemma NewTx_Validate_agree_witness :
  @Validate sample_signature
    (mkSignedTx (mkTx 1 0 alice "0x1234" 100 1 None) None None None) 1
  = Done (Some ErrToFormat).
Proof.
  apply (proj1 (@NewTx_Validate_agree sample_signature 1 0 alice "0x1234"
                  100 1 None None None None) Tx_zero ErrToFormat).
  reflexivity.
Defined.

Lemma Validate_rejects_failed_Sign_witness :
  @Validate sample_signature (fst (@Sign sample_signature alice_to_bob 0%N)) 1
  = Done (Some (ErrChainID 0 1)).
Proof.
  apply (@Validate_rejects_failed_Sign sample_signature alice_to_bob 0%N
           SignedTx_zero (errors_New "invalid private key") eq_refl 1%N).
  discriminate.
Defined.

Lemma Validate_after_NewTx_Sign_witness :
  @Validate sample_signature (signed_by alice_to_bob 1) 1 = Done None
  /\ @Validate sample_signature (signed_by alice_to_bob 1) 5
     = Done (Some (ErrChainID 1 5)).
Proof.
  destruct (@Validate_after_NewTx_Sign sample_signature 1 0 alice bob 100 1
              None alice_to_bob 1%N (signed_by alice_to_bob 1)
              eq_refl eq_refl) as (_ & _ & Hok & Hchain).
  split.
  - apply Hok; [discriminate | reflexivity | reflexivity].
  - apply Hchain. discriminate.
Defined.

(** ** The texts of errors and of the log string *)

Lemma string_of_uint_digits (d : Decimal.uint) (c : ascii) :
  In c (list_ascii_of_string (NilEmpty.string_of_uint d)) ->
  In c (list_ascii_of_string "0123456789").
Proof.
  induction d as [|d IH|d IH|d IH|d IH|d IH|d IH|d IH|d IH|d IH|d IH];
    cbn [NilEmpty.string_of_uint list_ascii_of_string];
    [intros [] | ..];
    (intros [<- | Hin]; [simpl; tauto | now apply IH]).
Qed.

Lemma fmt_d_digits (n : N) (c : ascii) :
  In c (list_ascii_of_string (fmt_d n)) ->
  In c (list_ascii_of_string "0123456789").
Proof.
  unfold fmt_d, NilZero.string_of_uint.
  destruct (N.to_uint n) eqn:Hd; try (rewrite <- Hd at 1);
    try apply string_of_uint_digits.
  simpl. tauto.
Qed.

Lemma fmt_d_inj (n m : N) : fmt_d n = fmt_d m -> n = m.
Proof.
  assert (Hnn : forall k, N.to_uint k <> Decimal.Nil).
  { intros [|p]; [discriminate | apply DecimalPos.Unsigned.to_uint_nonnil]. }
  unfold fmt_d. intros Heq.
  apply (f_equal NilZero.uint_of_string) in Heq.
  rewrite !NilZero.usu in Heq by apply Hnn.
  injection Heq as Heq. now apply DecimalN.Unsigned.to_uint_inj.
Qed.

(** Two texts cut at a separator that their tails do not contain are cut
    at the same place. *)
Lemma cut_at_last (sep : ascii) (a1 a2 r1 r2 : string) :
  ~ In sep (list_ascii_of_string r1) ->
  ~ In sep (list_ascii_of_string r2) ->
  a1 ++ String sep r1 = a2 ++ String sep r2 ->
  a1 = a2 /\ r1 = r2.
Proof.
  intros H1 H2. revert a2.
  induction a1 as [|c1 a1 IH]; intros [|c2 a2]; cbn [append]; intros Heq.
  - injection Heq as ->. auto.
  - injection Heq as <- ->. exfalso. apply H1.
    clear. induction a2 as [|c a2 IH]; simpl; auto.
  - injection Heq as -> <-. exfalso. apply H2.
    clear. induction a1 as [|c a1 IH]; simpl; auto.
  - injection Heq as -> Heq. destruct (IH _ Heq) as [-> ->]. auto.
Qed.

(** The same when it is the heads that do not contain the separator. *)
Lemma cut_at_first (sep : ascii) (a1 a2 r1 r2 : string) :
  ~ In sep (list_ascii_of_string a1) ->
  ~ In sep (list_ascii_of_string a2) ->
  a1 ++ String sep r1 = a2 ++ String sep r2 ->
  a1 = a2 /\ r1 = r2.
Proof.
  revert a2.
  induction a1 as [|c1 a1 IH]; intros [|c2 a2] H1 H2; cbn [append];
    intros Heq.
  - injection Heq as ->. auto.
  - injection Heq as <- _. exfalso. apply H2. simpl. auto.
  - injection Heq as -> _. exfalso. apply H1. simpl. auto.
  - injection Heq as -> Heq.
    destruct (IH a2) with (3 := Heq) as [-> ->]; auto.
    + intros Hin. apply H1. simpl. auto.
    + intros Hin. apply H2. simpl. auto.
Qed.

Lemma fmt_d_without (sep : ascii) (n : N) :
  ~ In sep (list_ascii_of_string "0123456789") ->
  ~ In sep (list_ascii_of_string (fmt_d n)).
Proof. intros Hsep Hin. apply Hsep. now apply fmt_d_digits in Hin. Qed.

(** The log string of a signed transaction tells its sender and its nonce
    and nothing else: two signed transactions have the same String
    exactly when they have the same FromID and the same Nonce, whatever
    the characters of FromID and whatever the other fields and the
    signature. *)
Theorem SignedTx_String_inj (tx1 tx2 : SignedTx) :
  SignedTx_String tx1 = SignedTx_String tx2
  <-> FromID (Tx_ tx1) = FromID (Tx_ tx2)
      /\ Nonce (Tx_ tx1) = Nonce (Tx_ tx2).
Proof.
  unfold SignedTx_String. split.
  - intros Heq.
    change (":" ++ fmt_d (Nonce (Tx_ tx1)))
      with (String ":" (fmt_d (Nonce (Tx_ tx1)))) in Heq.
    change (":" ++ fmt_d (Nonce (Tx_ tx2)))
      with (String ":" (fmt_d (Nonce (Tx_ tx2)))) in Heq.
    apply cut_at_last in Heq as [Hfrom Hnonce].
    + split; [assumption | now apply fmt_d_inj].
    + apply fmt_d_without. simpl. intuition discriminate.
    + apply fmt_d_without. simpl. intuition discriminate.
  - intros [-> ->]. reflexivity.
Qed.

(** The errors built by account.go and tx.go have pairwise different
    texts, whatever the chain ids and identifiers they mention; and the
    text of the chain id error tells both chain ids. *)
Theorem errors_tell_checks_apart (got exp got' exp' : N)
    (from to : AccountID) :
  NoDup [Error ErrInvalidAccountFormat; Error ErrFromFormat;
         Error ErrToFormat; Error (ErrChainID got exp);
         Error (ErrSelfTransfer from to); Error ErrSignatureMismatch]
  /\ (ErrChainID got exp = ErrChainID got' exp' ->
      got = got' /\ exp = exp').
Proof.
  split.
  - repeat constructor; simpl; intuition discriminate.
  - unfold ErrChainID. intros [= Heq].
    change ("] exp[" ++ fmt_d exp ++ "]")
      with (String "]" (" exp[" ++ fmt_d exp ++ "]")) in Heq.
    change ("] exp[" ++ fmt_d exp' ++ "]")
      with (String "]" (" exp[" ++ fmt_d exp' ++ "]")) in Heq.
    apply cut_at_first in Heq as [Hgot Hrest];
      try (apply fmt_d_without; simpl; intuition discriminate).
    apply fmt_d_inj in Hgot. split; [assumption|].
    cbn [append] in Hrest. injection Hrest as Hrest.
    change "]" with (String "]" "") in Hrest.
    apply cut_at_first in Hrest as [Hexp _];
      try (apply fmt_d_without; simpl; intuition discriminate).
    now apply fmt_d_inj.
Qed.

Lemma SignedTx_String_inj_witness :
  SignedTx_String (signed_by alice_to_bob 1)
  = SignedTx_String (mkSignedTx alice_to_alice None None None)
  /\ SignedTx_String (signed_by alice_to_bob 1)
     = "0x52908400098527886e0f7030069857d2e4169ee7:0".
Proof.
  split.
  - apply (SignedTx_String_inj (signed_by alice_to_bob 1)
             (mkSignedTx alice_to_alice None None None)).
    split; reflexivity.
  - reflexivity.
Defined.

Lemma errors_tell_checks_apart_witness :
  (1 = 1 /\ 2 = 2)%N /\ ErrChainID 1 2 <> ErrChainID 2 1.
Proof.
  split.
  - apply (errors_tell_checks_apart 1 2 1 2 "" ""). reflexivity.
  - intros Heq.
    apply (errors_tell_checks_apart 1 2 2 1 "" "") in Heq as [Hgot _].
    discriminate Hgot.
Defined.

Lemma has0xPrefix_exact_witness :
  has0xPrefix alice_0X = Done true /\ has0xPrefix "0" = Done false.
Proof.
  split.
  - apply (has0xPrefix_exact alice_0X).
    exists "52908400098527886e0f7030069857d2e4169ee7". now right.
  - apply (has0xPrefix_exact "0").
    intros [rest [Hr|Hr]]; discriminate Hr.
Defined.

Lemma IsAccountID_twenty_bytes_witness :
  IsAccountID (render (repeat "255"%char 20)) = Done true.
Proof.
  apply (IsAccountID_twenty_bytes (render (repeat "255"%char 20))).
  exists (repeat "255"%char 20). split; reflexivity.
Defined.
